(** * block_on: generate a blocking sibling for every async method of an impl

    Shallow embedding of [src/src/lib.rs], the [#[block_on("...")]]
    attribute macro.  The syn syntax tree is modelled by the few inductives
    and records below; the components that the macro only copies (types,
    attributes, generics, the tokens of bodies it does not build) are kept
    as their token text.  The macro has three outcomes: the expanded impl
    block, a [panic!] (the compiler reports the message and no impl block is
    emitted), or the early return of [parse_macro_input!], which expands to
    syn's [compile_error!] for a token stream that does not parse. *)

From Stdlib Require Import List String Ascii Bool Lia.
Import ListNotations.
Local Open Scope string_scope.
Local Set Warnings "-register-all".

Module BlockOn.

(** ** The syntax tree (the parts of syn 1 the macro touches) *)

(** [syn::Pat] and [syn::Type], as their token text. *)
Definition Pat := string.
Definition Ty := string.

(** [syn::FnArg]: a receiver ([self], [&self], [&mut self], [mut self])
    or a typed argument [pat: ty]. *)
Inductive FnArg :=
| Receiver (tokens : string)
| Typed (pat : Pat) (ty : Ty).

(** The expressions that occur in the blocks the macro builds. *)
Inductive Expr :=
| EPath (segs : list string)           (* a::b::c, also [self] and [rt] *)
| EQualPath (strct : Ty) (name : string) (* #strct::#name *)
| EArg (p : Pat)                        (* a parameter pattern re-used as an expression *)
| ECall (f : Expr) (args : list Expr)   (* f(args) *)
| EMethodCall (recv : Expr) (m : string) (args : list Expr). (* recv.m(args) *)

(** Statements of a block. [SRaw] stands for any statement of a
    user-written body, kept verbatim. *)
Inductive Stmt :=
| SUse (path : list string)             (* use a::b::c; *)
| SLetMut (x : string) (e : Expr)       (* let mut x = e; *)
| SExpr (e : Expr)                      (* tail expression *)
| SRaw (tokens : string).

Definition Block := list Stmt.

(** [syn::Signature]. [ident] is the identifier as it prints: a raw
    identifier prints as [r#name]. *)
Record Signature := mkSignature {
  constness : bool;
  asyncness : bool;
  unsafety : bool;
  abi : option string;
  ident : string;
  generics : string;
  inputs : list FnArg;
  variadic : bool;
  output : Ty
}.

(** [syn::ImplItemMethod]. *)
Record ImplItemMethod := mkImplItemMethod {
  attrs : list string;
  vis : string;
  defaultness : bool;
  sig : Signature;
  block : Block
}.

(** [syn::ImplItem]: a method, or any other member (const, type, macro,
    verbatim tokens), which the macro never inspects. *)
Inductive ImplItem :=
| Method (m : ImplItemMethod)
| Other (tokens : string).

(** [syn::ItemImpl]: everything but [self_ty] and [items] is the header
    of the impl block, kept as tokens. *)
Record ItemImpl := mkItemImpl {
  impl_attrs : list string;
  impl_header : string;
  self_ty : Ty;
  items : list ImplItem
}.

(** The outcome of the macro (and of each of its steps): a value, a
    panic with its message, or syn's parse error, which
    [parse_macro_input!] returns in place of the impl block. *)
Inductive Res (A : Type) :=
| Ok (a : A)
| Panic (msg : string)
| ParseError.
Arguments Ok {A} a.
Arguments Panic {A} msg.
Arguments ParseError {A}.

Definition bind {A B : Type} (r : Res A) (k : A -> Res B) : Res B :=
  match r with
  | Ok a => k a
  | Panic e => Panic e
  | ParseError => ParseError
  end.

Notation "'let*' x ':=' r 'in' k" := (bind r (fun x => k))
  (at level 200, x name, r at level 100, k at level 200).

(** ** Field updates used by the macro *)

Definition set_asyncness (s : Signature) (b : bool) : Signature :=
  mkSignature (constness s) b (unsafety s) (abi s) (ident s)
              (generics s) (inputs s) (variadic s) (output s).

Definition set_ident (s : Signature) (i : string) : Signature :=
  mkSignature (constness s) (asyncness s) (unsafety s) (abi s) i
              (generics s) (inputs s) (variadic s) (output s).

Definition set_sig (m : ImplItemMethod) (s : Signature) : ImplItemMethod :=
  mkImplItemMethod (attrs m) (vis m) (defaultness m) s (block m).

Definition set_block (m : ImplItemMethod) (b : Block) : ImplItemMethod :=
  mkImplItemMethod (attrs m) (vis m) (defaultness m) (sig m) b.

Definition set_items (i : ItemImpl) (its : list ImplItem) : ItemImpl :=
  mkItemImpl (impl_attrs i) (impl_header i) (self_ty i) its.

(** ** [Ident::new] *)

(** The compiler's [Ident::new] accepts exactly the identifiers of the
    lexer: an XID_start character or [_], then XID_continue characters.
    The ASCII part is written out; bytes outside ASCII are accepted, as in
    a name the parser produced they belong to XID characters.  A raw
    identifier's text [r#name] is not accepted ([#]). *)
Definition is_ident_start (c : ascii) : bool :=
  let n := nat_of_ascii c in
  (Nat.leb 97 n && Nat.leb n 122) || (Nat.leb 65 n && Nat.leb n 90) ||
  Nat.eqb n 95 || Nat.leb 128 n.

Definition is_ident_continue (c : ascii) : bool :=
  let n := nat_of_ascii c in
  is_ident_start c || (Nat.leb 48 n && Nat.leb n 57).

Fixpoint all_ident_continue (s : string) : bool :=
  match s with
  | EmptyString => true
  | String c rest => is_ident_continue c && all_ident_continue rest
  end.

Definition valid_ident (s : string) : bool :=
  match s with
  | EmptyString => false
  | String c rest => is_ident_start c && all_ident_continue rest
  end.

Definition dquote : string := String (ascii_of_nat 34) EmptyString.

(** The compiler's message, [`{:?}` is not a valid identifier]. *)
Definition invalid_ident_msg (s : string) : string :=
  "`" ++ dquote ++ s ++ dquote ++ "` is not a valid identifier".

Definition ident_new (s : string) : Res string :=
  if valid_ident s then Ok s else Panic (invalid_ident_msg s).

(** ** The macro *)

Definition panic_msg : string :=
  "Only `tokio` and `async-std` backends are supported!".

(** [inputs.into_iter().any(|arg| match arg { Receiver(_) => true, Typed(_) => false })] *)
Definition is_receiver (a : FnArg) : bool :=
  match a with
  | Receiver _ => true
  | Typed _ _ => false
  end.

Definition has_rec (inputs : list FnArg) : bool := existsb is_receiver inputs.

(** [.map(|arg| match arg { Receiver(_) => None, Typed(arg) => Some(arg.pat.clone()) })] *)
Definition call_arg (a : FnArg) : option Pat :=
  match a with
  | Receiver _ => None
  | Typed p _ => Some p
  end.

(** [.filter(|pat| pat.is_some()).map(|arg| arg.unwrap())], spliced into the
    call as [#(#call_args),*]. *)
Definition call_args (inputs : list FnArg) : list Expr :=
  map EArg (flat_map (fun a => match call_arg a with
                               | Some p => [p]
                               | None => []
                               end) inputs).

(** The two quoted blocks. *)
Definition tokio_block (call : Expr) : Block :=
  [ SUse ["tokio"; "runtime"; "Runtime"];
    SLetMut "rt" (EMethodCall (ECall (EPath ["Runtime"; "new"]) []) "unwrap" []);
    SExpr (EMethodCall (EPath ["rt"]) "block_on" [call]) ].

Definition async_std_block (call : Expr) : Block :=
  [ SUse ["async_std"; "task"];
    SExpr (ECall (EPath ["task"; "block_on"]) [call]) ].

(** [let block_proc2 = if rec { ... } else { ... };] *)
Definition block_proc2 (attr : string) (strct : Ty) (name : string)
    (rec : bool) (args : list Expr) : Res Block :=
  if rec then
    if String.eqb attr "tokio" then
      Ok (tokio_block (EMethodCall (EPath ["self"]) name args))
    else if String.eqb attr "async-std" then
      Ok (async_std_block (EMethodCall (EPath ["self"]) name args))
    else Panic panic_msg
  else
    if String.eqb attr "tokio" then
      Ok (tokio_block (ECall (EQualPath strct name) args))
    else if String.eqb attr "async-std" then
      Ok (async_std_block (ECall (EQualPath strct name) args))
    else Panic panic_msg.

(** [parse_macro_input!(block_proc as Block)]: the generated tokens are
    parsed back by syn, whose parser is external to this crate and is the
    parameter [parses].  The generated block is fixed text apart from the
    forwarded patterns and the self type, so [parses] decides in effect
    whether those re-parse as expressions (a pattern [mut x] or [ref x]
    does not).  On failure the macro returns syn's error. *)
Definition parse_block (parses : Block -> bool) (b : Block) : Res Block :=
  if parses b then Ok b else ParseError.

(** The body of the loop for an async [method]: the blocking sibling
    [out_method]. *)
Definition blocking_method (parses : Block -> bool) (attr : string) (strct : Ty)
    (method : ImplItemMethod) : Res ImplItemMethod :=
  let name := ident (sig method) in
  let out_method := set_sig method (set_asyncness (sig method) false) in
  let* id := ident_new (String.append name "_blocking") in
  let out_method := set_sig out_method (set_ident (sig out_method) id) in
  let ins := inputs (sig method) in
  let rec := has_rec ins in
  let* block_proc2 := block_proc2 attr strct name rec (call_args ins) in
  let* b := parse_block parses block_proc2 in
  Ok (set_block out_method b).

(** [for item in in_impl.items { ... }], with [orig] the items of
    [orig_impl], to which each blocking method is pushed. *)
Fixpoint process (parses : Block -> bool) (attr : string) (strct : Ty)
    (its : list ImplItem) (orig : list ImplItem) : Res (list ImplItem) :=
  match its with
  | [] => Ok orig
  | Method method :: rest =>
      if negb (asyncness (sig method)) then process parses attr strct rest orig
      else let* out_method := blocking_method parses attr strct method in
           process parses attr strct rest (app orig [Method out_method])
  | Other _ :: rest => process parses attr strct rest orig
  end.

(** [pub fn block_on(attr, tokens)], after parsing: [attr] is the string
    literal's value, [in_impl] the parsed impl block. *)
Definition block_on (parses : Block -> bool) (attr : string) (in_impl : ItemImpl)
    : Res ItemImpl :=
  let strct := self_ty in_impl in
  let* its := process parses attr strct (items in_impl) (items in_impl) in
  Ok (set_items in_impl its).

(** ** A sample parser *)

(** A partial model of syn's parse of a generated block, for the sample
    runs below: a forwarded pattern bound with [mut] or [ref], or with an
    [@] binding, is not an expression; everything else is accepted.  It is
    exact on the patterns the samples use. *)
Definition pat_is_expr (p : Pat) : bool :=
  negb (String.prefix "mut " p) && negb (String.prefix "ref " p) &&
  match String.index 0 "@" p with None => true | Some _ => false end.

Fixpoint expr_parses (e : Expr) : bool :=
  match e with
  | EArg p => pat_is_expr p
  | ECall f args =>
      expr_parses f &&
      (fix go (l : list Expr) : bool :=
         match l with [] => true | a :: r => expr_parses a && go r end) args
  | EMethodCall r _ args =>
      expr_parses r &&
      (fix go (l : list Expr) : bool :=
         match l with [] => true | a :: r => expr_parses a && go r end) args
  | _ => true
  end.

Definition sample_parses (b : Block) : bool :=
  forallb (fun s => match s with
                    | SLetMut _ e | SExpr e => expr_parses e
                    | _ => true
                    end) b.

(** ** Observers used to state the properties *)

(** A member is classified async iff it is a method whose signature is
    [async]. *)
Definition is_async_item (it : ImplItem) : bool :=
  match it with
  | Method m => asyncness (sig m)
  | Other _ => false
  end.

(** The async methods of a member list, in order. *)
Fixpoint async_methods (its : list ImplItem) : list ImplItemMethod :=
  match its with
  | [] => []
  | Method m :: rest =>
      if asyncness (sig m) then m :: async_methods rest else async_methods rest
  | Other _ :: rest => async_methods rest
  end.

(** [blocking_method] over a list of methods, stopping at the first failure. *)
Fixpoint collect (parses : Block -> bool) (attr : string) (strct : Ty)
    (ms : list ImplItemMethod) : Res (list ImplItemMethod) :=
  match ms with
  | [] => Ok []
  | m :: rest =>
      let* w := blocking_method parses attr strct m in
      let* ws := collect parses attr strct rest in
      Ok (w :: ws)
  end.

(** The selectors the macro accepts. *)
Definition valid_backend (attr : string) : bool :=
  String.eqb attr "tokio" || String.eqb attr "async-std".

(** The call expression the macro splices into the blocking block. *)
Definition call_expr (strct : Ty) (m : ImplItemMethod) : Expr :=
  if has_rec (inputs (sig m))
  then EMethodCall (EPath ["self"]) (ident (sig m)) (call_args (inputs (sig m)))
  else ECall (EQualPath strct (ident (sig m))) (call_args (inputs (sig m))).

(** The non-receiver parameter patterns, in order. *)
Fixpoint non_receiver_pats (ins : list FnArg) : list Pat :=
  match ins with
  | [] => []
  | Receiver _ :: rest => non_receiver_pats rest
  | Typed p _ :: rest => p :: non_receiver_pats rest
  end.

(** The argument list of a call expression. *)
Definition args_of (e : Expr) : list Expr :=
  match e with
  | ECall _ a => a
  | EMethodCall _ _ a => a
  | _ => []
  end.

(** The first parameter is a receiver marker. *)
Definition first_is_receiver (ins : list FnArg) : bool :=
  match ins with
  | Receiver _ :: _ => true
  | _ => false
  end.

(** syn 1 rejects a receiver anywhere but in first position ("unexpected
    method receiver"), so every parsed parameter list satisfies this. *)
Definition receiver_only_first (ins : list FnArg) : bool :=
  match ins with
  | [] => true
  | _ :: rest => forallb (fun a => negb (is_receiver a)) rest
  end.

Definition item_name (it : ImplItem) : string :=
  match it with
  | Method m => ident (sig m)
  | Other t => t
  end.

(** ** Sample inputs *)

Definition mk_method (async : bool) (name : string) (ins : list FnArg) : ImplItemMethod :=
  mkImplItemMethod [] "" false
    (mkSignature false async false None name "" ins false "()") [].

(** The example of the crate documentation: [impl Tokio { async fn test_async(&self) {} }]. *)
Definition doc_impl : ItemImpl :=
  mkItemImpl [] "impl" "Tokio" [Method (mk_method true "test_async" [Receiver "&self"])].

Definition two_async_impl : ItemImpl :=
  mkItemImpl [] "impl" "S"
    [Method (mk_method true "a" [Receiver "&self"]);
     Method (mk_method true "b" [Typed "x" "u8"])].

Definition mixed_impl : ItemImpl :=
  mkItemImpl [] "impl" "S"
    [Other "const K: u8 = 1;";
     Method (mk_method true "f" [Receiver "&self"; Typed "x" "u8"; Typed "(y, z)" "(u8, u8)"]);
     Method (mk_method false "g" [Receiver "&self"]);
     Method (mk_method true "h" [Typed "n" "u32"])].

(** [impl S { async fn r#type(&self) {} }] *)
Definition raw_impl : ItemImpl :=
  mkItemImpl [] "impl" "S" [Method (mk_method true "r#type" [Receiver "&self"])].

(** [impl S { async fn f(&self, mut x: u8) {} fn g(&self) {} }] *)
Definition mut_impl : ItemImpl :=
  mkItemImpl [] "impl" "S"
    [Method (mk_method true "f" [Receiver "&self"; Typed "mut x" "u8"]);
     Method (mk_method false "g" [Receiver "&self"])].

(** [impl S { async fn f(ref x: u8) {} }] *)
Definition ref_impl : ItemImpl :=
  mkItemImpl [] "impl" "S" [Method (mk_method true "f" [Typed "ref x" "u8"])].

Example doc_example :
  block_on sample_parses "tokio" doc_impl =
  Ok (set_items doc_impl
        [Method (mk_method true "test_async" [Receiver "&self"]);
         Method (mkImplItemMethod [] "" false
                   (mkSignature false false false None "test_async_blocking" ""
                      [Receiver "&self"] false "()")
                   (tokio_block (EMethodCall (EPath ["self"]) "test_async" [])))]).
Proof. reflexivity. Qed.


Example raw_name_sample :
  block_on sample_parses "tokio" raw_impl =
  Panic ("`" ++ dquote ++ "r#type_blocking" ++ dquote ++ "` is not a valid identifier").
Proof. reflexivity. Qed.

Example mut_param_sample : block_on sample_parses "tokio" mut_impl = ParseError.
Proof. reflexivity. Qed.

(** ** General lemmas *)

Lemma process_eq (parses : Block -> bool) (attr : string) (strct : Ty)
    (its orig : list ImplItem) :
  process parses attr strct its orig =
  let* ws := collect parses attr strct (async_methods its) in
  Ok (orig ++ map Method ws)%list.
Proof.
  revert orig; induction its as [|it rest IH]; intros orig; simpl.
  - rewrite app_nil_r; reflexivity.
  - destruct it as [m|t]; simpl; [|apply IH].
    destruct (asyncness (sig m)) eqn:E; simpl; [|apply IH].
    destruct (blocking_method parses attr strct m) as [w|e|]; simpl;
      [|reflexivity|reflexivity].
    rewrite IH; destruct (collect parses attr strct (async_methods rest)) as [ws|e|];
      simpl; [|reflexivity|reflexivity].
    rewrite <- app_assoc; reflexivity.
Qed.

Lemma block_on_eq (parses : Block -> bool) (attr : string) (impl : ItemImpl) :
  block_on parses attr impl =
  let* ws := collect parses attr (self_ty impl) (async_methods (items impl)) in
  Ok (set_items impl (items impl ++ map Method ws)%list).
Proof.
  unfold block_on; rewrite process_eq.
  destruct (collect _ _ _ _); reflexivity.
Qed.

Lemma ident_new_ok (s id : string) :
  ident_new s = Ok id -> id = s /\ valid_ident s = true.
Proof.
  unfold ident_new; destruct (valid_ident s) eqn:V; intros H; inversion H; auto.
Qed.

Lemma block_proc2_ok (attr : string) (strct : Ty) (name : string) (rec : bool)
    (args : list Expr) (b : Block) :
  block_proc2 attr strct name rec args = Ok b -> valid_backend attr = true.
Proof.
  unfold block_proc2, valid_backend.
  destruct rec, (String.eqb attr "tokio"), (String.eqb attr "async-std");
    intros H; try discriminate H; reflexivity.
Qed.

Lemma block_proc2_panic (attr : string) (strct : Ty) (name : string) (rec : bool)
    (args : list Expr) (e : string) :
  block_proc2 attr strct name rec args = Panic e ->
  e = panic_msg /\ valid_backend attr = false.
Proof.
  unfold block_proc2, valid_backend.
  destruct rec, (String.eqb attr "tokio"), (String.eqb attr "async-std");
    intros H; inversion H; auto.
Qed.

Lemma blocking_method_sig (parses : Block -> bool) (attr : string) (strct : Ty)
    (m w : ImplItemMethod) :
  blocking_method parses attr strct m = Ok w ->
  sig w = set_ident (set_asyncness (sig m) false)
                    (String.append (ident (sig m)) "_blocking") /\
  attrs w = attrs m /\ vis w = vis m /\ defaultness w = defaultness m /\
  block_proc2 attr strct (ident (sig m)) (has_rec (inputs (sig m)))
              (call_args (inputs (sig m))) = Ok (block w) /\
  parses (block w) = true.
Proof.
  unfold blocking_method; intros H.
  destruct (ident_new (String.append (ident (sig m)) "_blocking")) as [id|e|] eqn:Hi;
    simpl in H; try discriminate H.
  apply ident_new_ok in Hi as [-> _].
  destruct (block_proc2 attr strct (ident (sig m)) (has_rec (inputs (sig m)))
              (call_args (inputs (sig m)))) as [b|e|] eqn:B; simpl in H; try discriminate H.
  unfold parse_block in H; destruct (parses b) eqn:P; simpl in H; [|discriminate H].
  inversion H; subst; simpl; repeat split; assumption.
Qed.

Lemma blocking_method_block (parses : Block -> bool) (attr : string) (strct : Ty)
    (m w : ImplItemMethod) :
  blocking_method parses attr strct m = Ok w ->
  block w = tokio_block (call_expr strct m) \/ block w = async_std_block (call_expr strct m).
Proof.
  intros H; apply blocking_method_sig in H as (_ & _ & _ & _ & Hb & _).
  unfold block_proc2, call_expr in *.
  destruct (has_rec _), (String.eqb attr "tokio"), (String.eqb attr "async-std");
    inversion Hb; auto.
Qed.

(** Under an unsupported selector the wrapper of any method fails with a
    panic: the identifier panic if the new name is not an identifier,
    the backend panic otherwise. *)
Lemma blocking_method_invalid (parses : Block -> bool) (attr : string) (strct : Ty)
    (m : ImplItemMethod) :
  valid_backend attr = false ->
  blocking_method parses attr strct m =
  Panic (if valid_ident (String.append (ident (sig m)) "_blocking") then panic_msg
         else invalid_ident_msg (String.append (ident (sig m)) "_blocking")).
Proof.
  intros Hv; apply orb_false_iff in Hv as [H1 H2].
  unfold blocking_method, ident_new.
  destruct (valid_ident (String.append (ident (sig m)) "_blocking")); simpl; [|reflexivity].
  unfold block_proc2; rewrite H1, H2; destruct (has_rec _); reflexivity.
Qed.

Lemma blocking_method_panic_cause (parses : Block -> bool) (attr : string) (strct : Ty)
    (m : ImplItemMethod) (e : string) :
  blocking_method parses attr strct m = Panic e ->
  (valid_ident (String.append (ident (sig m)) "_blocking") = false /\
   e = invalid_ident_msg (String.append (ident (sig m)) "_blocking")) \/
  (valid_ident (String.append (ident (sig m)) "_blocking") = true /\
   valid_backend attr = false /\ e = panic_msg).
Proof.
  unfold blocking_method, ident_new.
  destruct (valid_ident (String.append (ident (sig m)) "_blocking")) eqn:Hi; simpl; intros H.
  - destruct (block_proc2 attr strct (ident (sig m)) (has_rec (inputs (sig m)))
                (call_args (inputs (sig m)))) as [b|e'|] eqn:B; simpl in H.
    + unfold parse_block in H; destruct (parses b); discriminate H.
    + inversion H; subst; apply block_proc2_panic in B as [-> Hv]; right; auto.
    + discriminate H.
  - inversion H; left; auto.
Qed.

Lemma blocking_method_parse_cause (parses : Block -> bool) (attr : string) (strct : Ty)
    (m : ImplItemMethod) :
  blocking_method parses attr strct m = ParseError ->
  valid_ident (String.append (ident (sig m)) "_blocking") = true /\
  valid_backend attr = true /\
  exists b, block_proc2 attr strct (ident (sig m)) (has_rec (inputs (sig m)))
                        (call_args (inputs (sig m))) = Ok b /\ parses b = false.
Proof.
  unfold blocking_method, ident_new.
  destruct (valid_ident (String.append (ident (sig m)) "_blocking")); simpl; intros H;
    [|discriminate H].
  destruct (block_proc2 attr strct (ident (sig m)) (has_rec (inputs (sig m)))
              (call_args (inputs (sig m)))) as [b|e'|] eqn:B; simpl in H;
    [| discriminate H
     | exfalso; revert B; unfold block_proc2;
       destruct (has_rec _), (String.eqb attr "tokio"), (String.eqb attr "async-std");
       discriminate].
  unfold parse_block in H; destruct (parses b) eqn:P; simpl in H; [discriminate H|].
  split; [reflexivity|split; [exact (block_proc2_ok _ _ _ _ _ _ B)|]]; exists b; auto.
Qed.

Lemma collect_forall2 (parses : Block -> bool) (attr : string) (strct : Ty)
    (ms ws : list ImplItemMethod) :
  collect parses attr strct ms = Ok ws ->
  Forall2 (fun m w => blocking_method parses attr strct m = Ok w) ms ws.
Proof.
  revert ws; induction ms as [|m rest IH]; simpl; intros ws H.
  - inversion H; subst; constructor.
  - destruct (blocking_method parses attr strct m) as [w|e|] eqn:Hw; simpl in H;
      try discriminate H.
    destruct (collect parses attr strct rest) as [ws'|e|] eqn:Hc; simpl in H;
      try discriminate H.
    inversion H; subst; constructor; auto.
Qed.

Lemma collect_panic (parses : Block -> bool) (attr : string) (strct : Ty)
    (ms : list ImplItemMethod) (e : string) :
  collect parses attr strct ms = Panic e ->
  exists m, In m ms /\ blocking_method parses attr strct m = Panic e.
Proof.
  induction ms as [|m rest IH]; simpl; intros H; [discriminate H|].
  destruct (blocking_method parses attr strct m) as [w|e'|] eqn:Hw; simpl in H;
    [|inversion H; subst; exists m; auto|discriminate H].
  destruct (collect parses attr strct rest) as [ws|e'|]; simpl in H;
    [discriminate H| |discriminate H].
  destruct (IH H) as [m' [Hin Hm']]; exists m'; auto.
Qed.

Lemma collect_parse_error (parses : Block -> bool) (attr : string) (strct : Ty)
    (ms : list ImplItemMethod) :
  collect parses attr strct ms = ParseError ->
  exists m, In m ms /\ blocking_method parses attr strct m = ParseError.
Proof.
  induction ms as [|m rest IH]; simpl; intros H; [discriminate H|].
  destruct (blocking_method parses attr strct m) as [w|e'|] eqn:Hw; simpl in H;
    [|discriminate H|exists m; auto].
  destruct (collect parses attr strct rest) as [ws|e'|]; simpl in H;
    [discriminate H|discriminate H|].
  destruct (IH eq_refl) as [m' [Hin Hm']]; exists m'; auto.
Qed.

Lemma collect_app (parses : Block -> bool) (attr : string) (strct : Ty)
    (l1 l2 : list ImplItemMethod) :
  collect parses attr strct (l1 ++ l2)%list =
  let* w1 := collect parses attr strct l1 in
  let* w2 := collect parses attr strct l2 in
  Ok (w1 ++ w2)%list.
Proof.
  induction l1 as [|m rest IH]; simpl.
  - destruct (collect parses attr strct l2); reflexivity.
  - destruct (blocking_method parses attr strct m); simpl; try reflexivity.
    rewrite IH; destruct (collect parses attr strct rest); simpl; try reflexivity.
    destruct (collect parses attr strct l2); reflexivity.
Qed.

Lemma async_methods_app (l1 l2 : list ImplItem) :
  async_methods (l1 ++ l2)%list = (async_methods l1 ++ async_methods l2)%list.
Proof.
  induction l1 as [|[m|t] rest IH]; simpl; [reflexivity| |exact IH].
  destruct (asyncness (sig m)); simpl; rewrite IH; reflexivity.
Qed.

Lemma async_methods_wrappers (parses : Block -> bool) (attr : string) (strct : Ty)
    (ms ws : list ImplItemMethod) :
  Forall2 (fun m w => blocking_method parses attr strct m = Ok w) ms ws ->
  async_methods (map Method ws) = [].
Proof.
  induction 1 as [|m w ms' ws' Hw _ IH]; simpl; [reflexivity|].
  apply blocking_method_sig in Hw as [Hs _]; rewrite Hs; simpl; exact IH.
Qed.

Lemma no_async_items (its : list ImplItem) :
  forallb (fun it => negb (is_async_item it)) its = true -> async_methods its = [].
Proof.
  induction its as [|it rest IH]; simpl; [reflexivity|].
  destruct it as [m|t]; simpl; intros H.
  - destruct (asyncness (sig m)); simpl in H; [discriminate | auto].
  - auto.
Qed.


(** ** Claims *)

(** C1 (code_bug): a wrapper per async method fails for an async method
    with a raw name: [Ident::new] panics on "r#type_blocking" before any
    wrapper is built, whatever syn's parser does, and no impl block is
    emitted. *)
Theorem raw_method_name_no_output (parses : Block -> bool) :
  block_on parses "tokio" raw_impl = Panic (invalid_ident_msg "r#type_blocking").
Proof. reflexivity. Qed.

(** C2 (as stated: every unsupported selector aborts) fails: an impl block
    without async methods goes through under the selector "smol". *)
Lemma unsupported_backend_no_abort_without_async :
  block_on sample_parses "smol"
    (mkItemImpl [] "impl" "S" [Method (mk_method false "g" [Receiver "&self"])])
  = Ok (mkItemImpl [] "impl" "S" [Method (mk_method false "g" [Receiver "&self"])]).
Proof. reflexivity. Qed.

(** C2, amended: under a selector other than "tokio" and "async-std" the
    macro produces no output (it panics) exactly when the input has an
    async method; the panic is the message that only these two backends
    are supported whenever the first async method's name gives a valid
    identifier with "_blocking".  Without async methods it returns the
    input. *)
Theorem unsupported_backend_aborts_on_async (parses : Block -> bool) (attr : string)
    (impl : ItemImpl) :
  valid_backend attr = false ->
  (forall m rest, async_methods (items impl) = m :: rest ->
     exists e, block_on parses attr impl = Panic e /\
       (valid_ident (String.append (ident (sig m)) "_blocking") = true -> e = panic_msg)) /\
  (async_methods (items impl) = [] -> block_on parses attr impl = Ok impl).
Proof.
  intros Hv; rewrite block_on_eq; split.
  - intros m rest Ha; rewrite Ha; simpl.
    rewrite (blocking_method_invalid parses attr _ m Hv); simpl.
    destruct (valid_ident (String.append (ident (sig m)) "_blocking"));
      eexists; (split; [reflexivity|]); intros Hi; [reflexivity|discriminate Hi].
  - intros Ha; rewrite Ha; simpl; rewrite app_nil_r; destruct impl; reflexivity.
Qed.

Lemma unsupported_backend_aborts_on_async_witness :
  valid_backend "smol" = false /\
  ((forall m rest, async_methods (items mixed_impl) = m :: rest ->
     exists e, block_on sample_parses "smol" mixed_impl = Panic e /\
       (valid_ident (String.append (ident (sig m)) "_blocking") = true -> e = panic_msg)) /\
   (async_methods (items mixed_impl) = [] ->
     block_on sample_parses "smol" mixed_impl = Ok mixed_impl)).
Proof.
  split; [reflexivity|].
  apply (unsupported_backend_aborts_on_async sample_parses "smol" mixed_impl); reflexivity.
Defined.

(** C3 (as stated: each wrapper right after its original) fails: with two
    async methods [a] and [b] the output is [a; b; a_blocking; b_blocking]. *)
Lemma wrappers_not_adjacent :
  match block_on sample_parses "tokio" two_async_impl with
  | Ok out => map item_name (items out) = ["a"; "b"; "a_blocking"; "b_blocking"]
  | _ => False
  end.
Proof. reflexivity. Qed.

(** C3, amended: whenever the macro produces output, the wrappers come
    after all original members, as one block at the end, in the order of
    their async counterparts. *)
Theorem wrappers_appended_in_order (parses : Block -> bool) (attr : string)
    (impl out : ItemImpl) :
  block_on parses attr impl = Ok out ->
  exists ws,
    out = set_items impl (items impl ++ map Method ws)%list /\
    Forall2 (fun m w => blocking_method parses attr (self_ty impl) m = Ok w)
            (async_methods (items impl)) ws.
Proof.
  rewrite block_on_eq.
  destruct (collect parses attr (self_ty impl) (async_methods (items impl))) as [ws|e|] eqn:Hc;
    simpl; intros H; [|discriminate H|discriminate H].
  inversion H; subst; exists ws; split; [reflexivity|].
  exact (collect_forall2 _ _ _ _ _ Hc).
Qed.

Lemma wrappers_appended_in_order_witness :
  exists out,
  block_on sample_parses "async-std" two_async_impl = Ok out /\
  (exists ws,
    out = set_items two_async_impl (items two_async_impl ++ map Method ws)%list /\
    Forall2 (fun m w => blocking_method sample_parses "async-std" (self_ty two_async_impl) m = Ok w)
            (async_methods (items two_async_impl)) ws).
Proof.
  eexists; split; [reflexivity|].
  apply (wrappers_appended_in_order sample_parses "async-std" two_async_impl); reflexivity.
Defined.

(** C4 (code_bug): the non-async member [fn g(&self)] of [mut_impl] is
    not passed through, because the async method beside it has a parameter
    [mut x]: the call [self.f(mut x)] does not parse as an expression,
    [parse_macro_input!] returns syn's error and no impl block, with none
    of the input members, is emitted. *)
Theorem mut_param_no_output (parses : Block -> bool) :
  parses (tokio_block (EMethodCall (EPath ["self"]) "f" [EArg "mut x"])) = false ->
  block_on parses "tokio" mut_impl = ParseError.
Proof. intros H; cbv in H |- *; rewrite H; reflexivity. Qed.

Lemma mut_param_no_output_witness :
  sample_parses (tokio_block (EMethodCall (EPath ["self"]) "f" [EArg "mut x"])) = false /\
  block_on sample_parses "tokio" mut_impl = ParseError.
Proof.
  split; [reflexivity|].
  apply mut_param_no_output; reflexivity.
Defined.

(** C5: in the wrapper of an async method, the call passes the method's
    non-receiver parameter patterns, in order, and nothing else. *)
Theorem call_forwards_parameters (parses : Block -> bool) (attr : string) (strct : Ty)
    (m w : ImplItemMethod) :
  blocking_method parses attr strct m = Ok w ->
  exists call,
    (block w = tokio_block call \/ block w = async_std_block call) /\
    args_of call = map EArg (non_receiver_pats (inputs (sig m))).
Proof.
  intros Hw; exists (call_expr strct m); split.
  - exact (blocking_method_block parses attr strct m w Hw).
  - assert (E : forall ins, flat_map (fun a => match call_arg a with
                                             | Some p => [p]
                                             | None => []
                                             end) ins = non_receiver_pats ins).
    { induction ins as [|[t|p t] rest IH]; simpl; congruence. }
    unfold call_expr, call_args; rewrite E; destruct (has_rec _); reflexivity.
Qed.

Lemma call_forwards_parameters_witness :
  exists w,
  blocking_method sample_parses "tokio" "S"
    (mk_method true "f" [Receiver "&self"; Typed "x" "u8"; Typed "(y, z)" "(u8, u8)"]) = Ok w /\
  (exists call,
    (block w = tokio_block call \/ block w = async_std_block call) /\
    args_of call = map EArg (non_receiver_pats
      (inputs (sig (mk_method true "f" [Receiver "&self"; Typed "x" "u8"; Typed "(y, z)" "(u8, u8)"]))))).
Proof.
  eexists; split; [reflexivity|].
  apply (call_forwards_parameters sample_parses "tokio" "S"); reflexivity.
Defined.


(** C6: for a parameter list as syn parses it (a receiver only in first
    position), the macro's receiver test holds iff the first parameter is a
    receiver; with a receiver the wrapper calls [self.name(..)], without
    one [Type::name(..)]. *)
Theorem receiver_selects_call_syntax (parses : Block -> bool) (attr : string) (strct : Ty)
    (m w : ImplItemMethod) :
  receiver_only_first (inputs (sig m)) = true ->
  blocking_method parses attr strct m = Ok w ->
  (has_rec (inputs (sig m)) = true <-> first_is_receiver (inputs (sig m)) = true) /\
  exists call,
    (block w = tokio_block call \/ block w = async_std_block call) /\
    call = if first_is_receiver (inputs (sig m))
           then EMethodCall (EPath ["self"]) (ident (sig m)) (call_args (inputs (sig m)))
           else ECall (EQualPath strct (ident (sig m))) (call_args (inputs (sig m))).
Proof.
  intros Hwf Hw.
  assert (Hr : has_rec (inputs (sig m)) = first_is_receiver (inputs (sig m))).
  { unfold has_rec; destruct (inputs (sig m)) as [|a rest]; [reflexivity|].
    simpl in Hwf |- *.
    assert (Hn : existsb is_receiver rest = false).
    { induction rest as [|b r IH]; [reflexivity|].
      simpl in Hwf |- *; apply andb_prop in Hwf as [H1 H2].
      destruct (is_receiver b); [discriminate|]; simpl; auto. }
    rewrite Hn, orb_false_r; destruct a; reflexivity. }
  split; [rewrite Hr; tauto|].
  exists (call_expr strct m); split.
  - exact (blocking_method_block parses attr strct m w Hw).
  - unfold call_expr; rewrite Hr; reflexivity.
Qed.

Lemma receiver_selects_call_syntax_witness :
  receiver_only_first [Typed "n" "u32"] = true /\
  blocking_method sample_parses "async-std" "S" (mk_method true "h" [Typed "n" "u32"]) =
    Ok (set_block (mk_method false "h_blocking" [Typed "n" "u32"])
          (async_std_block (ECall (EQualPath "S" "h") [EArg "n"]))) /\
  ((has_rec [Typed "n" "u32"] = true <-> first_is_receiver [Typed "n" "u32"] = true) /\
   exists call,
    (block (set_block (mk_method false "h_blocking" [Typed "n" "u32"])
              (async_std_block (ECall (EQualPath "S" "h") [EArg "n"]))) = tokio_block call \/
     block (set_block (mk_method false "h_blocking" [Typed "n" "u32"])
              (async_std_block (ECall (EQualPath "S" "h") [EArg "n"]))) = async_std_block call) /\
    call = if first_is_receiver [Typed "n" "u32"]
           then EMethodCall (EPath ["self"]) "h" (call_args [Typed "n" "u32"])
           else ECall (EQualPath "S" "h") (call_args [Typed "n" "u32"])).
Proof.
  split; [reflexivity|split; [reflexivity|]].
  apply (receiver_selects_call_syntax sample_parses "async-std" "S"
           (mk_method true "h" [Typed "n" "u32"])); reflexivity.
Defined.

(** C7: whenever the wrapper is generated, with "tokio" its body builds a
    fresh runtime and blocks on the call with it; with "async-std" it
    hands the call to [task::block_on] and has no runtime construction
    statement. *)
Theorem backend_body_shape (parses : Block -> bool) (strct : Ty) (m w : ImplItemMethod) :
  (blocking_method parses "tokio" strct m = Ok w ->
   block w = [ SUse ["tokio"; "runtime"; "Runtime"];
               SLetMut "rt" (EMethodCall (ECall (EPath ["Runtime"; "new"]) []) "unwrap" []);
               SExpr (EMethodCall (EPath ["rt"]) "block_on" [call_expr strct m]) ]) /\
  (blocking_method parses "async-std" strct m = Ok w ->
   block w = [ SUse ["async_std"; "task"];
               SExpr (ECall (EPath ["task"; "block_on"]) [call_expr strct m]) ] /\
   forall x e, ~ In (SLetMut x e) (block w)).
Proof.
  split; intros Hw; apply blocking_method_sig in Hw as (_ & _ & _ & _ & Hb & _);
    unfold block_proc2 in Hb; unfold call_expr; simpl in Hb.
  - destruct (has_rec (inputs (sig m))); inversion Hb; reflexivity.
  - assert (E : block w = [ SUse ["async_std"; "task"];
                            SExpr (ECall (EPath ["task"; "block_on"]) [call_expr strct m]) ]).
    { unfold call_expr; destruct (has_rec (inputs (sig m))); inversion Hb; reflexivity. }
    split; [exact E|]; rewrite E; simpl; intros x e [H|[H|[]]]; discriminate H.
Qed.

Lemma backend_body_shape_witness :
  exists w1 w2,
  blocking_method sample_parses "tokio" "S" (mk_method true "h" [Typed "n" "u32"]) = Ok w1 /\
  blocking_method sample_parses "async-std" "S" (mk_method true "h" [Typed "n" "u32"]) = Ok w2 /\
  block w1 = [ SUse ["tokio"; "runtime"; "Runtime"];
               SLetMut "rt" (EMethodCall (ECall (EPath ["Runtime"; "new"]) []) "unwrap" []);
               SExpr (EMethodCall (EPath ["rt"]) "block_on"
                        [call_expr "S" (mk_method true "h" [Typed "n" "u32"])]) ] /\
  (block w2 = [ SUse ["async_std"; "task"];
                SExpr (ECall (EPath ["task"; "block_on"])
                         [call_expr "S" (mk_method true "h" [Typed "n" "u32"])]) ] /\
   forall x e, ~ In (SLetMut x e) (block w2)).
Proof.
  do 2 eexists; split; [reflexivity|split; [reflexivity|split]].
  - apply (proj1 (backend_body_shape sample_parses "S" (mk_method true "h" [Typed "n" "u32"]) _));
      reflexivity.
  - apply (proj2 (backend_body_shape sample_parses "S" (mk_method true "h" [Typed "n" "u32"]) _));
      reflexivity.
Defined.

(** C8: the wrapper copies the original method except for the async flag
    (cleared), the name (suffixed "_blocking") and the body (the block the
    macro builds). *)
Theorem wrapper_signature_mirrors (parses : Block -> bool) (attr : string) (strct : Ty)
    (m w : ImplItemMethod) :
  blocking_method parses attr strct m = Ok w ->
  attrs w = attrs m /\ vis w = vis m /\ defaultness w = defaultness m /\
  constness (sig w) = constness (sig m) /\ asyncness (sig w) = false /\
  unsafety (sig w) = unsafety (sig m) /\ abi (sig w) = abi (sig m) /\
  ident (sig w) = String.append (ident (sig m)) "_blocking" /\
  generics (sig w) = generics (sig m) /\ inputs (sig w) = inputs (sig m) /\
  variadic (sig w) = variadic (sig m) /\ output (sig w) = output (sig m) /\
  block_proc2 attr strct (ident (sig m)) (has_rec (inputs (sig m)))
              (call_args (inputs (sig m))) = Ok (block w).
Proof.
  intros Hw; apply blocking_method_sig in Hw as (Hs & Ha & Hv & Hd & Hb & _).
  rewrite Hs; repeat split; assumption.
Qed.

Lemma wrapper_signature_mirrors_witness :
  exists w,
  blocking_method sample_parses "tokio" "S"
    (mk_method true "f" [Receiver "&self"; Typed "x" "u8"]) = Ok w /\
  (attrs w = [] /\ vis w = "" /\ defaultness w = false /\
   constness (sig w) = false /\ asyncness (sig w) = false /\
   unsafety (sig w) = false /\ abi (sig w) = None /\
   ident (sig w) = String.append "f" "_blocking" /\
   generics (sig w) = "" /\ inputs (sig w) = [Receiver "&self"; Typed "x" "u8"] /\
   variadic (sig w) = false /\ output (sig w) = "()" /\
   block_proc2 "tokio" "S" "f" (has_rec [Receiver "&self"; Typed "x" "u8"])
               (call_args [Receiver "&self"; Typed "x" "u8"]) = Ok (block w)).
Proof.
  eexists; split; [reflexivity|].
  apply (wrapper_signature_mirrors sample_parses "tokio" "S"
           (mk_method true "f" [Receiver "&self"; Typed "x" "u8"])); reflexivity.
Defined.

(** C9 (code_bug): the async original is not kept when its parameter is
    [ref x] and it has no receiver: under "async-std" the call
    [S::f(ref x)] does not parse as an expression, [parse_macro_input!]
    returns syn's error and no impl block is emitted. *)
Theorem ref_param_no_output (parses : Block -> bool) :
  parses (async_std_block (ECall (EQualPath "S" "f") [EArg "ref x"])) = false ->
  block_on parses "async-std" ref_impl = ParseError.
Proof. intros H; cbv in H |- *; rewrite H; reflexivity. Qed.

Lemma ref_param_no_output_witness :
  sample_parses (async_std_block (ECall (EQualPath "S" "f") [EArg "ref x"])) = false /\
  block_on sample_parses "async-std" ref_impl = ParseError.
Proof.
  split; [reflexivity|].
  apply ref_param_no_output; reflexivity.
Defined.

(** C10: an input without async methods is returned unchanged, whatever
    the selector, also one other than "tokio" and "async-std". *)
Theorem no_async_any_selector (parses : Block -> bool) (attr : string) (impl : ItemImpl) :
  forallb (fun it => negb (is_async_item it)) (items impl) = true ->
  block_on parses attr impl = Ok impl.
Proof.
  intros H; rewrite block_on_eq, (no_async_items _ H); simpl.
  rewrite app_nil_r; destruct impl; reflexivity.
Qed.

Lemma no_async_any_selector_witness :
  forallb (fun it => negb (is_async_item it))
    [Other "type T = u8;"; Method (mk_method false "g" [Receiver "&self"])] = true /\
  block_on sample_parses "smol" (mkItemImpl [] "impl" "S"
    [Other "type T = u8;"; Method (mk_method false "g" [Receiver "&self"])]) =
  Ok (mkItemImpl [] "impl" "S"
    [Other "type T = u8;"; Method (mk_method false "g" [Receiver "&self"])]).
Proof.
  split; [reflexivity|].
  apply no_async_any_selector; reflexivity.
Defined.


(** ** Further properties of the macro *)

(** X1: whatever the selector, a successful expansion keeps the impl
    header (attributes, generics and trait part, self type) and the input
    members as a prefix: the macro only appends. *)
Theorem block_on_only_appends (parses : Block -> bool) (attr : string) (impl out : ItemImpl) :
  block_on parses attr impl = Ok out ->
  impl_attrs out = impl_attrs impl /\ impl_header out = impl_header impl /\
  self_ty out = self_ty impl /\
  exists added, items out = (items impl ++ added)%list.
Proof.
  rewrite block_on_eq; destruct (collect _ _ _ _) as [ws|e|]; simpl; intros H;
    [|discriminate H|discriminate H].
  inversion H; subst; simpl; repeat split; eexists; reflexivity.
Qed.

Lemma block_on_only_appends_witness :
  exists out,
  block_on sample_parses "tokio" mixed_impl = Ok out /\
  (impl_attrs out = impl_attrs mixed_impl /\ impl_header out = impl_header mixed_impl /\
   self_ty out = self_ty mixed_impl /\
   exists added, items out = (items mixed_impl ++ added)%list).
Proof.
  eexists; split; [reflexivity|].
  apply (block_on_only_appends sample_parses "tokio"); reflexivity.
Defined.

(** X2: a successful expansion has as many members as the input plus one
    per async method. *)
Theorem block_on_length (parses : Block -> bool) (attr : string) (impl out : ItemImpl) :
  block_on parses attr impl = Ok out ->
  List.length (items out) = List.length (items impl) + List.length (async_methods (items impl)).
Proof.
  rewrite block_on_eq.
  destruct (collect parses attr (self_ty impl) (async_methods (items impl))) as [ws|e|] eqn:Hc;
    simpl; intros H; [|discriminate H|discriminate H].
  inversion H; subst; simpl.
  rewrite length_app, length_map, (Forall2_length (collect_forall2 _ _ _ _ _ Hc)); reflexivity.
Qed.

Lemma block_on_length_witness :
  exists out,
  block_on sample_parses "async-std" mixed_impl = Ok out /\
  List.length (items out) = List.length (items mixed_impl) + List.length (async_methods (items mixed_impl)).
Proof.
  eexists; split; [reflexivity|].
  apply (block_on_length sample_parses "async-std" mixed_impl); reflexivity.
Defined.

(** X3: the macro fails in three ways, each caused by an async method: a
    panic of [Ident::new] when the method's name with "_blocking" is not an
    identifier; else, under an unsupported selector, the panic that only
    tokio and async-std are supported; else syn's parse error when the
    generated body does not parse. *)
Theorem block_on_failure_cause (parses : Block -> bool) (attr : string) (impl : ItemImpl) :
  (forall e, block_on parses attr impl = Panic e ->
     exists m, In m (async_methods (items impl)) /\
       ((valid_ident (String.append (ident (sig m)) "_blocking") = false /\
         e = invalid_ident_msg (String.append (ident (sig m)) "_blocking")) \/
        (valid_ident (String.append (ident (sig m)) "_blocking") = true /\
         valid_backend attr = false /\ e = panic_msg))) /\
  (block_on parses attr impl = ParseError ->
     exists m b, In m (async_methods (items impl)) /\
       valid_ident (String.append (ident (sig m)) "_blocking") = true /\
       valid_backend attr = true /\
       block_proc2 attr (self_ty impl) (ident (sig m)) (has_rec (inputs (sig m)))
                   (call_args (inputs (sig m))) = Ok b /\
       parses b = false).
Proof.
  rewrite block_on_eq; split.
  - intros e.
    destruct (collect parses attr (self_ty impl) (async_methods (items impl))) as [ws|e'|] eqn:Hc;
      simpl; intros H; [discriminate H| |discriminate H].
    inversion H; subst.
    destruct (collect_panic _ _ _ _ _ Hc) as [m [Hin Hm]].
    exists m; split; [exact Hin|exact (blocking_method_panic_cause _ _ _ _ _ Hm)].
  - destruct (collect parses attr (self_ty impl) (async_methods (items impl))) as [ws|e'|] eqn:Hc;
      simpl; intros H; [discriminate H|discriminate H|].
    destruct (collect_parse_error _ _ _ _ Hc) as [m [Hin Hm]].
    destruct (blocking_method_parse_cause _ _ _ _ Hm) as (Hi & Hv & b & Hb & Hp).
    exists m, b; auto.
Qed.

Lemma block_on_failure_cause_witness :
  block_on sample_parses "tokio" raw_impl = Panic (invalid_ident_msg "r#type_blocking") /\
  block_on sample_parses "tokio" mut_impl = ParseError /\
  (exists m, In m (async_methods (items raw_impl)) /\
     ((valid_ident (String.append (ident (sig m)) "_blocking") = false /\
       invalid_ident_msg "r#type_blocking" =
         invalid_ident_msg (String.append (ident (sig m)) "_blocking")) \/
      (valid_ident (String.append (ident (sig m)) "_blocking") = true /\
       valid_backend "tokio" = false /\ invalid_ident_msg "r#type_blocking" = panic_msg))) /\
  (exists m b, In m (async_methods (items mut_impl)) /\
     valid_ident (String.append (ident (sig m)) "_blocking") = true /\
     valid_backend "tokio" = true /\
     block_proc2 "tokio" (self_ty mut_impl) (ident (sig m)) (has_rec (inputs (sig m)))
                 (call_args (inputs (sig m))) = Ok b /\
     sample_parses b = false).
Proof.
  split; [reflexivity|split; [reflexivity|split]].
  - apply (proj1 (block_on_failure_cause sample_parses "tokio" raw_impl)); reflexivity.
  - apply (proj2 (block_on_failure_cause sample_parses "tokio" mut_impl)); reflexivity.
Defined.

(** X4: the generated methods are never async, so the async methods of the
    output are exactly those of the input. *)
Theorem block_on_async_methods (parses : Block -> bool) (attr : string) (impl out : ItemImpl) :
  block_on parses attr impl = Ok out ->
  async_methods (items out) = async_methods (items impl).
Proof.
  rewrite block_on_eq; destruct (collect _ _ _ _) as [ws|e|] eqn:Hc; simpl; intros H;
    [|discriminate H|discriminate H].
  inversion H; subst; simpl.
  rewrite async_methods_app, (async_methods_wrappers _ _ _ _ _ (collect_forall2 _ _ _ _ _ Hc)).
  apply app_nil_r.
Qed.

Lemma block_on_async_methods_witness :
  exists out,
  block_on sample_parses "tokio" mixed_impl = Ok out /\
  async_methods (items out) = async_methods (items mixed_impl).
Proof.
  eexists; split; [reflexivity|].
  apply (block_on_async_methods sample_parses "tokio"); reflexivity.
Defined.

(** X5: expanding twice is not idempotent: the second expansion adds the
    same blocking methods again, since the async originals are still there
    and the wrappers themselves are not async. *)
Theorem block_on_twice (parses : Block -> bool) (attr : string) (impl out : ItemImpl) :
  block_on parses attr impl = Ok out ->
  exists added,
    items out = (items impl ++ added)%list /\
    block_on parses attr out = Ok (set_items out (items out ++ added)%list).
Proof.
  rewrite block_on_eq; destruct (collect _ _ _ _) as [ws|e|] eqn:Hc; simpl; intros H;
    [|discriminate H|discriminate H].
  inversion H; subst; clear H.
  exists (map Method ws); split; [reflexivity|].
  rewrite block_on_eq; simpl.
  rewrite async_methods_app, (async_methods_wrappers _ _ _ _ _ (collect_forall2 _ _ _ _ _ Hc)),
          app_nil_r, Hc.
  reflexivity.
Qed.

Lemma block_on_twice_witness :
  exists out,
  block_on sample_parses "tokio" mixed_impl = Ok out /\
  (exists added,
    items out = (items mixed_impl ++ added)%list /\
    block_on sample_parses "tokio" out = Ok (set_items out (items out ++ added)%list)).
Proof.
  eexists; split; [reflexivity|].
  apply (block_on_twice sample_parses "tokio" mixed_impl); reflexivity.
Defined.

(** X6: the expansion of two member lists of one type, concatenated, is
    the concatenation of the members followed by the methods generated for
    the first list and then those for the second. *)
Theorem block_on_concat (parses : Block -> bool) (attr : string) (i1 i2 o1 o2 : ItemImpl) :
  self_ty i2 = self_ty i1 ->
  block_on parses attr i1 = Ok o1 -> block_on parses attr i2 = Ok o2 ->
  exists a1 a2,
    items o1 = (items i1 ++ a1)%list /\ items o2 = (items i2 ++ a2)%list /\
    block_on parses attr (set_items i1 (items i1 ++ items i2)%list) =
      Ok (set_items i1 (items i1 ++ items i2 ++ a1 ++ a2)%list).
Proof.
  intros Ht; rewrite !block_on_eq, Ht.
  destruct (collect parses attr (self_ty i1) (async_methods (items i1))) as [w1|e|] eqn:H1;
    simpl; intros Ho1; [|discriminate Ho1|discriminate Ho1].
  destruct (collect parses attr (self_ty i1) (async_methods (items i2))) as [w2|e|] eqn:H2;
    simpl; intros Ho2; [|discriminate Ho2|discriminate Ho2].
  inversion Ho1; inversion Ho2; subst; clear Ho1 Ho2.
  exists (map Method w1), (map Method w2); split; [reflexivity|split; [reflexivity|]].
  simpl.
  rewrite async_methods_app, collect_app, H1, H2; simpl.
  rewrite map_app, !app_assoc.
  reflexivity.
Qed.

Lemma block_on_concat_witness :
  exists o1 o2,
  self_ty mixed_impl = self_ty two_async_impl /\
  block_on sample_parses "async-std" two_async_impl = Ok o1 /\
  block_on sample_parses "async-std" mixed_impl = Ok o2 /\
  (exists a1 a2,
    items o1 = (items two_async_impl ++ a1)%list /\ items o2 = (items mixed_impl ++ a2)%list /\
    block_on sample_parses "async-std"
      (set_items two_async_impl (items two_async_impl ++ items mixed_impl)%list) =
      Ok (set_items two_async_impl (items two_async_impl ++ items mixed_impl ++ a1 ++ a2)%list)).
Proof.
  do 2 eexists; split; [reflexivity|split; [reflexivity|split; [reflexivity|]]].
  apply (block_on_concat sample_parses "async-std" two_async_impl mixed_impl); reflexivity.
Defined.

(** X7: the wrapper of a method with a receiver does not depend on the
    impl's self type, which only enters calls of associated functions. *)
Theorem receiver_wrapper_type_independent (parses : Block -> bool) (attr : string)
    (s1 s2 : Ty) (m : ImplItemMethod) :
  has_rec (inputs (sig m)) = true ->
  blocking_method parses attr s1 m = blocking_method parses attr s2 m.
Proof.
  intros Hr; unfold blocking_method, block_proc2; rewrite Hr; reflexivity.
Qed.

Lemma receiver_wrapper_type_independent_witness :
  has_rec (inputs (sig (mk_method true "f" [Receiver "&self"; Typed "x" "u8"]))) = true /\
  blocking_method sample_parses "tokio" "S" (mk_method true "f" [Receiver "&self"; Typed "x" "u8"]) =
  blocking_method sample_parses "tokio" "Vec<u8>" (mk_method true "f" [Receiver "&self"; Typed "x" "u8"]).
Proof.
  split; [reflexivity|].
  apply receiver_wrapper_type_independent; reflexivity.
Defined.

End BlockOn.
